(** * The ADB server client: framing, selectors and the request engine

    A shallow embedding of [AdbServerClient] (the client side of the ADB
    server protocol) and of [raceSignal].  Asynchronous code is written in
    a state-and-exception monad over a world that holds the connections
    handed out by the connector; every connection records, in order, what
    was done to it. *)

From Stdlib.Strings Require Import String Ascii Byte.
From Stdlib Require Import List ZArith NArith Lia Bool.
From Stdlib Require Import DecimalString.
Import ListNotations.

Local Open Scope string_scope.
Local Open Scope list_scope.

(** ** Strings, as JavaScript's [String.prototype] uses them *)

Module Js.

(** [s.split(sep)] for a separator of one character. *)
Fixpoint split (sep : ascii) (s : string) : list string :=
  match s with
  | EmptyString => [EmptyString]
  | String c s' =>
      if Ascii.eqb c sep then EmptyString :: split sep s'
      else match split sep s' with
           | [] => [String c EmptyString]
           | piece :: pieces => String c piece :: pieces
           end
  end.

(** The truthiness of a string: only the empty string is falsy. *)
Definition truthy (s : string) : bool :=
  match s with EmptyString => false | String _ _ => true end.


(** The characters of [s] that satisfy [keep]. *)
Fixpoint filter (keep : ascii -> bool) (s : string) : string :=
  match s with
  | EmptyString => EmptyString
  | String c s' => if keep c then String c (filter keep s') else filter keep s'
  end.

(** Template-literal rendering of a bigint: decimal, with a leading
    minus sign for negative values. *)
Definition bigintToString (z : Z) : string :=
  NilZero.string_of_int (Z.to_int z).

Definition digitValue (c : ascii) : option Z :=
  let n := N_of_ascii c in
  if (48 <=? n)%N && (n <=? 57)%N then Some (Z.of_N n - 48)%Z
  else if (97 <=? n)%N && (n <=? 122)%N then Some (Z.of_N n - 87)%Z
  else if (65 <=? n)%N && (n <=? 90)%N then Some (Z.of_N n - 55)%Z
  else None.

(** Digits of [s] in the given radix, most significant first. *)
Fixpoint digits (radix : Z) (acc : Z) (s : string) : option Z :=
  match s with
  | EmptyString => Some acc
  | String c s' =>
      match digitValue c with
      | Some d => if (d <? radix)%Z then digits radix (radix * acc + d)%Z s' else None
      | None => None
      end
  end.

Definition isWhiteSpace (c : ascii) : bool :=
  let n := N_of_ascii c in
  ((9 <=? n)%N && (n <=? 13)%N) || (n =? 32)%N.

Fixpoint trimStart (s : string) : string :=
  match s with
  | String c s' => if isWhiteSpace c then trimStart s' else s
  | EmptyString => EmptyString
  end.

Fixpoint trimEnd (s : string) : string :=
  match s with
  | EmptyString => EmptyString
  | String c s' =>
      match trimEnd s' with
      | EmptyString => if isWhiteSpace c then EmptyString else String c EmptyString
      | t => String c t
      end
  end.

(** [BigInt(s)] on a string ([StringToBigInt]): surrounding white space
    is dropped, the empty string is [0n], a decimal literal may carry a
    sign, [0x], [0o] and [0b] literals may not; anything else is a
    [SyntaxError], here [None].  White space is the ASCII part of the
    ECMAScript set. *)
Definition stringToBigInt (s : string) : option Z :=
  match trimStart (trimEnd s) with
  | EmptyString => Some 0%Z
  | String "0" (String x (String c r)) =>
      let body := String c r in
      if Ascii.eqb x "x" || Ascii.eqb x "X" then digits 16 0 body
      else if Ascii.eqb x "o" || Ascii.eqb x "O" then digits 8 0 body
      else if Ascii.eqb x "b" || Ascii.eqb x "B" then digits 2 0 body
      else digits 10 0 (String "0" (String x body))
  | String "-" (String c r) => option_map Z.opp (digits 10 0 (String c r))
  | String "+" (String c r) => digits 10 0 (String c r)
  | t => digits 10 0 t
  end.

End Js.

(** ** Bytes and the codecs of [@yume-chan/struct] and [../utils] *)

Definition bytes := list byte.

(** Modelled from the spec: [encodeUtf8] and [decodeUtf8] are imported from
    [@yume-chan/struct] and are not among the sources.  The spec (4.2) says a
    string frame's payload is the UTF-8 encoding of the string.  A string is
    represented here by the bytes of its UTF-8 encoding, so encoding lists
    those bytes and decoding collects them again. *)
Definition encodeUtf8 (s : string) : bytes := list_byte_of_string s.

Definition decodeUtf8 (b : bytes) : string := string_of_list_byte b.

(** Modelled from the spec: [numberToHex] and [hexToNumber] live in
    [../utils/index.js], which is not among the sources.  The spec (4.2)
    gives the hex length as four ASCII hex digits, lower- or upper-case
    accepted, emitted in lower case, most significant nibble first,
    denoting an unsigned 16-bit length; a byte that is no hex digit is a
    decode error (7).  The spec does not say what is emitted above
    [0xFFFF]; the four low nibbles are kept here. *)
Definition hexDigit (d : N) : byte :=
  nth (N.to_nat d) (list_byte_of_string "0123456789abcdef") "f"%byte.

Definition numberToHex (n : N) : bytes :=
  [ hexDigit (N.land (N.shiftr n 12) 15);
    hexDigit (N.land (N.shiftr n 8) 15);
    hexDigit (N.land (N.shiftr n 4) 15);
    hexDigit (N.land n 15) ].

Definition hexCharToNumber (b : byte) : option N :=
  let char := Byte.to_N b in
  if (char <? 48)%N then None
  else if (char <? 58)%N then Some (char - 48)%N
  else if (char <? 65)%N then None
  else if (char <? 71)%N then Some (char - 55)%N
  else if (char <? 97)%N then None
  else if (char <? 103)%N then Some (char - 87)%N
  else None.

Fixpoint hexToNumberFrom (acc : N) (data : bytes) : option N :=
  match data with
  | [] => Some acc
  | b :: data' =>
      match hexCharToNumber b with
      | Some d => hexToNumberFrom (acc * 16 + d)%N data'
      | None => None
      end
  end.

Definition hexToNumber (data : bytes) : option N := hexToNumberFrom 0 data.

(** [BigIntFieldType.Uint64.getter(dataView, 0, true)]: the unsigned value
    of the bytes, least significant byte first. *)
Fixpoint getUint64LE (data : bytes) : Z :=
  match data with
  | [] => 0
  | b :: data' => (Z.of_N (Byte.to_N b) + 256 * getUint64LE data')%Z
  end.

(** ** Errors *)

(** The error kinds of the client.  The code raises [new Error(message)];
    a constructor stands for each message, with the text it interpolates.
    [External] errors are those the environment raises: the connector, a
    stream, or the reason stored in an abort signal. *)
Inductive error : Type :=
| ProtocolFailure (reason : string)
| UnexpectedResponse (response : string)
| InvalidSelector
| MissingTransportId (serial : string)
| VersionMismatch (server client : N)
| UnexpectedEnd
| DecodeError
| TypeError
| SyntaxError
| External (tag : nat).

Inductive result (A : Type) : Type :=
| Ok (a : A)
| Throw (e : error).

Arguments Ok {A} a.
Arguments Throw {A} e.

(** ** Connections *)

(** What is observed on a connection, in the order it happens. *)
Inductive event : Type :=
| Written (chunk : bytes)      (* [writer.write(chunk)] was accepted *)
| Read (chunk : bytes)         (* [readExactly] returned [chunk] *)
| ReadableCancel               (* [readable.cancel()] was called *)
| WritableClose                (* [writable.close()] was called *)
| Close.                       (* [connection.close()] was called *)

(** The state of one connection to the server: the bytes the server sends
    that have not been consumed yet, how the next writes, a cancel and a
    close turn out ([None] is success), and the events so far. *)
Record connection : Type := mkConnection {
  incoming : bytes;
  write_faults : list (option error);
  cancel_fault : option error;
  close_fault : option error;
  log : list event
}.

Definition closedConnection : connection :=
  mkConnection [] [] None None [].

Definition logged (ev : event) (c : connection) : connection :=
  mkConnection (incoming c) (write_faults c) (cancel_fault c) (close_fault c)
               (log c ++ [ev]).

Definition withIncoming (i : bytes) (c : connection) : connection :=
  mkConnection i (write_faults c) (cancel_fault c) (close_fault c) (log c).

Definition withWriteFaults (f : list (option error)) (c : connection) : connection :=
  mkConnection (incoming c) f (cancel_fault c) (close_fault c) (log c).

(** ** The monad of asynchronous code *)

(** An asynchronous function over a state [S] either resolves or rejects,
    and leaves a state behind in both cases. *)
Definition Async (S A : Type) : Type := S -> result A * S.

Definition ret {S A} (a : A) : Async S A := fun s => (Ok a, s).

Definition throw {S A} (e : error) : Async S A := fun s => (Throw e, s).

Definition bind {S A B} (m : Async S A) (k : A -> Async S B) : Async S B :=
  fun s => match m s with
           | (Ok a, s') => k a s'
           | (Throw e, s') => (Throw e, s')
           end.

Declare Scope async_scope.
Delimit Scope async_scope with async.
Bind Scope async_scope with Async.

Notation "x <- m ;; k" := (bind m (fun x => k))
  (at level 61, m at next level, right associativity) : async_scope.
Notation "m ;; k" := (bind m (fun _ => k))
  (at level 61, right associativity) : async_scope.

Local Open Scope async_scope.

(** [try { body } catch (e) { handler }] *)
Definition tryCatch {S A} (body : Async S A) (handler : error -> Async S A)
  : Async S A :=
  fun s => match body s with
           | (Ok a, s') => (Ok a, s')
           | (Throw e, s') => handler e s'
           end.

(** [try { body } finally { cleanup }]: an error of the cleanup replaces
    the outcome of the body. *)
Definition tryFinally {S A} (body : Async S A) (cleanup : Async S unit)
  : Async S A :=
  fun s => match body s with
           | (r, s') =>
               match cleanup s' with
               | (Ok _, s'') => (r, s'')
               | (Throw e, s'') => (Throw e, s'')
               end
           end.

(** [promise.catch(NOOP)] *)
Definition catchNOOP {S} (m : Async S unit) : Async S unit :=
  fun s => match m s with
           | (_, s') => (Ok tt, s')
           end.

Definition liftOption {S A} (e : error) (o : option A) : Async S A :=
  match o with
  | Some a => ret a
  | None => throw e
  end.

Definition liftResult {S A} (r : result A) : Async S A :=
  match r with
  | Ok a => ret a
  | Throw e => throw e
  end.

(** ** Streams *)

(** [BufferedReadableStream.readExactly(n)]: the next [n] bytes, or
    [UnexpectedEnd] when the stream ends before (spec 4.3). *)
Definition readExactly (n : nat) : Async connection bytes :=
  fun c =>
    if Nat.leb n (length (incoming c)) then
      let chunk := firstn n (incoming c) in
      (Ok chunk, logged (Read chunk) (withIncoming (skipn n (incoming c)) c))
    else (Throw UnexpectedEnd, c).

(** [writer.write(chunk)] *)
Definition write (chunk : bytes) : Async connection unit :=
  fun c =>
    match write_faults c with
    | [] => (Ok tt, logged (Written chunk) c)
    | None :: faults => (Ok tt, logged (Written chunk) (withWriteFaults faults c))
    | Some e :: faults => (Throw e, withWriteFaults faults c)
    end.

(** [readable.cancel()], on the raw readable or on the buffered one. *)
Definition cancel : Async connection unit :=
  fun c =>
    (match cancel_fault c with Some e => Throw e | None => Ok tt end,
     logged ReadableCancel c).

(** [connection.writable.close()] *)
Definition writableClose : Async connection unit :=
  fun c => (Ok tt, logged WritableClose c).

(** [connection.close()] *)
Definition close : Async connection unit :=
  fun c =>
    (match close_fault c with Some e => Throw e | None => Ok tt end,
     logged Close c).

(** ** The world: a connector and the connections it has handed out *)

(** An [AdbServerConnection] value is a handle on a connection: the number
    of connections dialled before it. *)
Definition AdbServerConnection := nat.

(** [pending] lists what the connector answers to the next calls of
    [connect]: an error or a fresh connection; when it is empty the
    connector refuses with [External 0].  [conns] are the connections
    handed out so far, oldest first. *)
Record World : Type := mkWorld {
  pending : list (error + connection);
  conns : list connection
}.

Definition initialWorld (answers : list (error + connection)) : World :=
  mkWorld answers [].

Definition getConn (h : AdbServerConnection) (w : World) : connection :=
  nth h (conns w) closedConnection.

Fixpoint replaceNth {A} (n : nat) (x : A) (l : list A) : list A :=
  match l, n with
  | [], _ => []
  | _ :: l', 0 => x :: l'
  | y :: l', S n' => y :: replaceNth n' x l'
  end.

(** Runs code that works on one connection against the world. *)
Definition on {A} (h : AdbServerConnection) (m : Async connection A)
  : Async World A :=
  fun w =>
    match m (getConn h w) with
    | (r, c') => (r, mkWorld (pending w) (replaceNth h c' (conns w)))
    end.

Record AbortSignal : Type := mkSignal {
  aborted : bool;        (* already aborted when it is looked at *)
  reason : error;
  fires : bool           (* aborts while a raced operation is still waiting *)
}.

Record AdbServerConnectionOptions : Type := mkOptions {
  unref : option bool;
  signal : option AbortSignal
}.

(** [this.connection.connect(options)] *)
Definition connectorConnect (options : option AdbServerConnectionOptions)
  : Async World AdbServerConnection :=
  fun w =>
    match pending w with
    | [] => (Throw (External 0), w)
    | inl e :: answers => (Throw e, mkWorld answers (conns w))
    | inr c :: answers => (Ok (length (conns w)), mkWorld answers (conns w ++ [c]))
    end.

(** ** [raceSignal] *)

(** The first loop of [raceSignal]: an already aborted signal throws its
    reason, the others get the listener. *)
Fixpoint raceSignal_listen {S} (signals : list (option AbortSignal)) : Async S unit :=
  match signals with
  | [] => ret tt
  | None :: signals' => raceSignal_listen signals'
  | Some s :: signals' =>
      if aborted s then throw (reason s) else raceSignal_listen signals'
  end.

(** [Promise.race([callback(), abortPromise.promise])]: a signal that fires
    while the callback is still waiting rejects the race with its reason;
    the callback has consumed nothing by then. *)
Fixpoint raceSignal_race {S T} (callback : Async S T)
         (signals : list (option AbortSignal)) : Async S T :=
  match signals with
  | [] => callback
  | None :: signals' => raceSignal_race callback signals'
  | Some s :: signals' =>
      if fires s then throw (reason s) else raceSignal_race callback signals'
  end.

(** The listeners, added in the first loop and removed in the [finally]
    block, touch no connection and are not recorded. *)
Definition raceSignal {S T} (callback : Async S T)
           (signals : list (option AbortSignal)) : Async S T :=
  tryFinally
    (raceSignal_listen signals ;; raceSignal_race callback signals)
    (ret tt).

(** ** [AdbServerClient] *)

Definition VERSION : N := 41.

Definition EMPTY_UINT8_ARRAY : bytes := [].

Definition readString : Async connection string :=
  buffer <- readExactly 4 ;;
  length <- liftOption DecodeError (hexToNumber buffer) ;;
  valueBuffer <- (if N.eqb length 0 then ret EMPTY_UINT8_ARRAY
                  else readExactly (N.to_nat length)) ;;
  ret (decodeUtf8 valueBuffer).

(** The buffer [writeString] hands to the writer. *)
Definition writeString_buffer (value : string) : bytes :=
  let valueBuffer := encodeUtf8 value in
  numberToHex (N.of_nat (length valueBuffer)) ++ valueBuffer.

Definition writeString (value : string) : Async connection unit :=
  write (writeString_buffer value).

Definition readOkay : Async connection unit :=
  buffer <- readExactly 4 ;;
  let response := decodeUtf8 buffer in
  if String.eqb response "OKAY" then ret tt
  else if String.eqb response "FAIL" then
    reason <- readString ;;
    throw (ProtocolFailure reason)
  else throw (UnexpectedResponse response).

Definition optionsSignal (options : option AdbServerConnectionOptions)
  : option AbortSignal :=
  match options with
  | Some o => signal o
  | None => None
  end.

(** What [connect] does with the connection it has obtained. *)
Definition connect_exchange (request : string)
           (options : option AdbServerConnectionOptions) : Async connection unit :=
  tryCatch
    (writeString request)
    (fun e =>
       cancel ;;
       close ;;
       throw e) ;;
  tryCatch
    (raceSignal readOkay [optionsSignal options])
    (fun e =>
       catchNOOP cancel ;;
       close ;;
       throw e).

Definition connect (request : string) (options : option AdbServerConnectionOptions)
  : Async World AdbServerConnection :=
  connection <- connectorConnect options ;;
  on connection (connect_exchange request options) ;;
  ret connection.

Definition getVersion : Async World N :=
  connection <- connect "host:version" None ;;
  on connection
    (tryFinally
       (lengthBuffer <- readExactly 4 ;;
        length <- liftOption DecodeError (hexToNumber lengthBuffer) ;;
        versionBuffer <- readExactly (N.to_nat length) ;;
        liftOption DecodeError (hexToNumber versionBuffer))
       (catchNOOP writableClose ;;
        catchNOOP cancel)).

Definition validateVersion : Async World unit :=
  version <- getVersion ;;
  if negb (N.eqb version VERSION) then throw (VersionMismatch version VERSION)
  else ret tt.

Definition killServer : Async World unit :=
  connection <- connect "host:kill" None ;;
  on connection
    (catchNOOP writableClose ;;
     catchNOOP cancel).


Record AdbServerDevice : Type := mkDevice {
  serial : string;
  product : option string;
  model : option string;
  device : option string;
  transportId : Z
}.

(** The four variables one line of [getDevices] fills in. *)
Record DeviceFields : Type := mkFields {
  f_product : option string;
  f_model : option string;
  f_device : option string;
  f_transportId : option Z
}.

(** [BigInt(value!)]: [undefined] is a [TypeError], a string that is no
    integer literal a [SyntaxError]. *)
Definition BigInt (value : option string) : result Z :=
  match value with
  | None => Throw TypeError
  | Some v =>
      match Js.stringToBigInt v with
      | Some z => Ok z
      | None => Throw SyntaxError
      end
  end.

(** The body of the inner loop of [getDevices], for [parts[i]]. *)
Definition getDevices_part (fields : DeviceFields) (part : string)
  : result DeviceFields :=
  let pieces := Js.split ":" part in
  let key := nth 0 pieces "" in
  let value := nth_error pieces 1 in
  if String.eqb key "product" then
    Ok (mkFields value (f_model fields) (f_device fields) (f_transportId fields))
  else if String.eqb key "model" then
    Ok (mkFields (f_product fields) value (f_device fields) (f_transportId fields))
  else if String.eqb key "device" then
    Ok (mkFields (f_product fields) (f_model fields) value (f_transportId fields))
  else if String.eqb key "transport_id" then
    match BigInt value with
    | Ok id => Ok (mkFields (f_product fields) (f_model fields) (f_device fields) (Some id))
    | Throw e => Throw e
    end
  else Ok fields.

(** The inner loop, over [parts[2]], [parts[3]], ... *)
Fixpoint getDevices_parts (fields : DeviceFields) (parts : list string)
  : result DeviceFields :=
  match parts with
  | [] => Ok fields
  | part :: parts' =>
      match getDevices_part fields part with
      | Ok fields' => getDevices_parts fields' parts'
      | Throw e => Throw e
      end
  end.

(** [line.split(" ").filter(Boolean)] *)
Definition getDevices_tokens (line : string) : list string :=
  List.filter Js.truthy (Js.split " " line).

(** The body of the outer loop: [None] when the line is skipped, the
    device it describes otherwise. *)
Definition getDevices_line (line : string) : result (option AdbServerDevice) :=
  if negb (Js.truthy line) then Ok None
  else
    let parts := getDevices_tokens line in
    match nth_error parts 1 with
    | None => Ok None
    | Some status =>
        if negb (String.eqb status "device") then Ok None
        else
          let serial := nth 0 parts "" in
          match getDevices_parts (mkFields None None None None) (skipn 2 parts) with
          | Throw e => Throw e
          | Ok fields =>
              match f_transportId fields with
              | None => Throw (MissingTransportId serial)
              | Some id =>
                  if Z.eqb id 0 then Throw (MissingTransportId serial)
                  else Ok (Some (mkDevice serial (f_product fields) (f_model fields)
                                          (f_device fields) id))
              end
          end
    end.

(** The outer loop, pushing onto [devices]. *)
Fixpoint getDevices_lines (devices : list AdbServerDevice) (lines : list string)
  : result (list AdbServerDevice) :=
  match lines with
  | [] => Ok devices
  | line :: lines' =>
      match getDevices_line line with
      | Ok None => getDevices_lines devices lines'
      | Ok (Some d) => getDevices_lines (devices ++ [d]) lines'
      | Throw e => Throw e
      end
  end.

Definition getDevices_parse (response : string) : result (list AdbServerDevice) :=
  getDevices_lines [] (Js.split "010" response).

Definition getDevices : Async World (list AdbServerDevice) :=
  connection <- connect "host:devices-l" None ;;
  on connection
    (tryFinally
       (response <- readString ;;
        liftResult (getDevices_parse response))
       (catchNOOP writableClose ;;
        catchNOOP cancel)).

(** A selector object, by the keys it carries; [undefined] is [None]. *)
Record SelectorObject : Type := mkSelector {
  sel_transportId : option Z;
  sel_serial : option string;
  sel_usb : bool;
  sel_tcp : bool
}.

Definition AdbServerDeviceSelector := option SelectorObject.

Definition formatDeviceService (device : AdbServerDeviceSelector) (command : string)
  : result string :=
  match device with
  | None => Ok ("host:" ++ command)%string
  | Some o =>
      match sel_transportId o with
      | Some id => Ok ("host-transport-id:" ++ Js.bigintToString id ++ ":" ++ command)%string
      | None =>
          match sel_serial o with
          | Some s => Ok ("host-serial:" ++ s ++ ":" ++ command)%string
          | None =>
              if sel_usb o then Ok ("host-usb:" ++ command)%string
              else if sel_tcp o then Ok ("host-local:" ++ command)%string
              else Throw InvalidSelector
          end
      end
  end.

Record AdbServerSocket : Type := mkSocket {
  socket_transportId : Z;
  socket_service : string;
  socket_connection : AdbServerConnection
}.

(** The selector dispatch of [connectDevice]: the service that binds the
    connection, and the transport id when the selector gives it. *)
Definition connectDevice_switch (device : AdbServerDeviceSelector)
  : result (string * option Z) :=
  match device with
  | None => Ok ("host:tport:any", None)
  | Some o =>
      match sel_transportId o with
      | Some id => Ok (("host:transport-id:" ++ Js.bigintToString id)%string, Some id)
      | None =>
          match sel_serial o with
          | Some s => Ok (("host:tport:serial:" ++ s)%string, None)
          | None =>
              if sel_usb o then Ok ("host:tport:usb", None)
              else if sel_tcp o then Ok ("host:tport:local", None)
              else Throw InvalidSelector
          end
      end
  end.

(** The second [try] block of [connectDevice]: the transport id, read from
    the stream unless the selector gave it, then the acknowledgement. *)
Definition connectDevice_resolve (known : option Z) : Async connection Z :=
  transportId <- match known with
                 | None =>
                     array <- readExactly 8 ;;
                     ret (getUint64LE array)
                 | Some id => ret id
                 end ;;
  readOkay ;;
  ret transportId.

(** What [connectDevice] does with the connection once it is bound: it
    sends the service and resolves the transport id. *)
Definition connectDevice_handshake (known : option Z) (service : string)
  : Async connection Z :=
  tryCatch
    (writeString service)
    (fun e =>
       cancel ;;
       close ;;
       throw e) ;;
  tryCatch
    (connectDevice_resolve known)
    (fun e =>
       catchNOOP cancel ;;
       close ;;
       throw e).

Definition connectDevice (device : AdbServerDeviceSelector) (service : string)
  : Async World AdbServerSocket :=
  validateVersion ;;
  switch <- liftResult (connectDevice_switch device) ;;
  let switchService := fst switch in
  connection <- connect switchService None ;;
  transportId <- on connection (connectDevice_handshake (snd switch) service) ;;
  ret (mkSocket transportId service connection).

Definition getDeviceFeatures (device : AdbServerDeviceSelector)
  : Async World (Z * list string) :=
  socket <- connectDevice device "host:features" ;;
  on (socket_connection socket)
    (tryFinally
       (featuresString <- readString ;;
        let features := Js.split "," featuresString in
        ret (socket_transportId socket, features))
       close).

Inductive WaitState : Type := WaitDevice | WaitDisconnect.

Definition waitStateName (state : WaitState) : string :=
  match state with
  | WaitDevice => "device"
  | WaitDisconnect => "disconnect"
  end.

Definition waitFor_type (device : AdbServerDeviceSelector) : result string :=
  match device with
  | None => Ok "any"
  | Some o =>
      match sel_transportId o with
      | Some _ => Ok "any"
      | None =>
          match sel_serial o with
          | Some _ => Ok "any"
          | None =>
              if sel_usb o then Ok "usb"
              else if sel_tcp o then Ok "local"
              else Throw InvalidSelector
          end
      end
  end.

Definition waitFor (device : AdbServerDeviceSelector) (state : WaitState)
           (options : option AdbServerConnectionOptions) : Async World unit :=
  type <- liftResult (waitFor_type device) ;;
  service <- liftResult
    (formatDeviceService device
       ("wait-for-" ++ type ++ "-" ++ waitStateName state)%string) ;;
  connect service options ;;
  ret tt.

(** [AdbBanner] and [AdbServerTransport] are constructed from their
    arguments; the back pointer to the client is left out. *)
Record AdbBanner : Type := mkBanner {
  banner_product : option string;
  banner_model : option string;
  banner_device : option string;
  banner_features : list string
}.

Record AdbServerTransport : Type := mkTransport {
  transport_serial : string;
  transport_banner : AdbBanner;
  transport_transportId : Z
}.

Definition createTransport (selector : AdbServerDeviceSelector)
  : Async World AdbServerTransport :=
  found <- getDeviceFeatures selector ;;
  let transportId' := fst found in
  let features := snd found in
  devices <- getDevices ;;
  let info := List.find (fun d => Z.eqb (transportId d) transportId') devices in
  let banner := mkBanner (match info with Some i => product i | None => None end)
                         (match info with Some i => model i | None => None end)
                         (match info with Some i => device i | None => None end)
                         features in
  ret (mkTransport (match info with Some i => serial i | None => "" end)
                   banner transportId').

(** ** Vocabulary of the statements *)

(** The connection [c] after its stream has advanced to [rest], with
    [events] recorded. *)
Definition advanced (c : connection) (rest : bytes) (events : list event)
  : connection :=
  mkConnection rest (write_faults c) (cancel_fault c) (close_fault c)
               (log c ++ events).

(** A server that sends [input] and never fails a write, a cancel or a
    close. *)
Definition quietServer (input : bytes) : connection :=
  mkConnection input [] None None [].

(** Cleanup after a failure: starting from [before], the reader was
    cancelled and the connection closed, in this order; [raised] is the
    [original] error, or the error of [close()] when that fails. *)
Definition cleanedUp (before after : connection) (original raised : error) : Prop :=
  log after = log before ++ [ReadableCancel; Close] /\
  raised = match close_fault before with
           | None => original
           | Some closeError => closeError
           end.

(** No byte was written on the connection. *)
Definition noBytesWritten (c : connection) : Prop :=
  forall chunk, In (Written chunk) (log c) -> chunk = [].

(** [m] leaves the way a cancel and a close turn out untouched and only
    adds events to the log. *)
Definition keepsFaults {A} (m : Async connection A) : Prop :=
  forall c, cancel_fault (snd (m c)) = cancel_fault c /\
            close_fault (snd (m c)) = close_fault c /\
            exists events, log (snd (m c)) = log c ++ events.

(** ** Sample servers *)

(** A server that answers [FAIL] with the reason [device offline] and whose
    [close()] fails. *)
Definition failingCloseServer : connection :=
  mkConnection (encodeUtf8 "FAIL000edevice offline") [] None (Some (External 9)) [].

(** A server that answers [host:version] with version 41. *)
Definition versionServer : connection :=
  quietServer (encodeUtf8 "OKAY00040029").

(** A signal that is aborted from the start, with reason [External 7]. *)
Definition abortedSignal : AbortSignal := mkSignal true (External 7) false.

Definition abortedOptions : option AdbServerConnectionOptions :=
  Some (mkOptions None (Some abortedSignal)).

(** The selector [{ usb: true }]. *)
Definition usbSelector : AdbServerDeviceSelector :=
  Some (mkSelector None None true false).

(** A server that accepts the bind, announces transport 7 and then refuses
    the service with the reason [device offline]. *)
Definition offlineDeviceServer : connection :=
  quietServer (encodeUtf8 "OKAY"
               ++ ["007"; "000"; "000"; "000"; "000"; "000"; "000"; "000"]%byte
               ++ encodeUtf8 "FAIL000edevice offline").

Definition failingCloseWorld : World := initialWorld [inr failingCloseServer].

Definition offlineDeviceWorld : World :=
  initialWorld [inr versionServer; inr offlineDeviceServer].

Definition abortedWorld : World := initialWorld [inr versionServer].

(** ** Selectors *)

(** How many of the recognised keys a selector object carries. *)
Definition discriminants (o : SelectorObject) : nat :=
  (match sel_transportId o with Some _ => 1 | None => 0 end)
  + (match sel_serial o with Some _ => 1 | None => 0 end)
  + (if sel_usb o then 1 else 0) + (if sel_tcp o then 1 else 0).

(** The selector object reduced to the first key it carries, in the order
    [transportId], [serial], [usb], [tcp]. *)
Definition firstDiscriminant (o : SelectorObject) : SelectorObject :=
  match sel_transportId o, sel_serial o with
  | Some id, _ => mkSelector (Some id) None false false
  | None, Some s => mkSelector None (Some s) false false
  | None, None =>
      if sel_usb o then mkSelector None None true false
      else mkSelector None None false (sel_tcp o)
  end.

(** The selector [{ transportId: 1n, serial: "x" }]. *)
Definition twoKeySelector : SelectorObject :=
  mkSelector (Some 1%Z) (Some "x") false false.

(** The selector [{}]. *)
Definition emptySelector : SelectorObject :=
  mkSelector None None false false.


(** A server that accepts the bind, announces transport 7, accepts the
    service and sends the features [cmd,shell_v2,abb]. *)
Definition boundDeviceServer : connection :=
  quietServer (encodeUtf8 "OKAY"
               ++ ["007"; "000"; "000"; "000"; "000"; "000"; "000"; "000"]%byte
               ++ encodeUtf8 "OKAY"
               ++ encodeUtf8 "0010cmd,shell_v2,abb").







(** The [devices-l] listing with one device, of transport id 2. *)
Definition emulatorLine : string :=
  "emulator-5554 device product:sdk_phone model:Phone device:generic transport_id:2".

Definition emulatorDevice : AdbServerDevice :=
  mkDevice "emulator-5554" (Some "sdk_phone") (Some "Phone") (Some "generic") 2.

(** The device of transport id 7 answers for its features, then the
    listing shows the emulator only. *)
Definition vanishedDeviceWorld : World :=
  initialWorld
    [inr versionServer; inr boundDeviceServer;
     inr (quietServer (encodeUtf8 "OKAY" ++ writeString_buffer emulatorLine))].

(** ** Device listings *)









(** * Properties *)

(** ** The codecs *)

Lemma hexCharToNumber_hexDigit (d : N) :
  (d < 16)%N -> hexCharToNumber (hexDigit d) = Some d.
Proof.
  intros H.
  destruct d as [|p]; [reflexivity|].
  do 4 (destruct p as [p|p|]; try reflexivity; try lia).
Qed.

Lemma nibble_bound (n : N) (k : N) : (N.land (N.shiftr n k) 15 < 16)%N.
Proof.
  change 15%N with (N.ones 4). rewrite N.land_ones.
  apply N.mod_lt. discriminate.
Qed.

Lemma length_numberToHex (n : N) : length (numberToHex n) = 4.
Proof. reflexivity. Qed.

Lemma hexToNumber_numberToHex (n : N) :
  (n <= 65535)%N -> hexToNumber (numberToHex n) = Some n.
Proof.
  intros H. unfold hexToNumber, numberToHex, hexToNumberFrom.
  replace (N.land n 15) with (N.land (N.shiftr n 0) 15) by reflexivity.
  rewrite !hexCharToNumber_hexDigit by apply nibble_bound.
  f_equal.
  change 15%N with (N.ones 4). rewrite !N.land_ones, !N.shiftr_div_pow2.
  change (2 ^ 12)%N with 4096%N. change (2 ^ 8)%N with 256%N.
  change (2 ^ 4)%N with 16%N. change (2 ^ 0)%N with 1%N.
  zify. Z.to_euclidean_division_equations. lia.
Qed.

Lemma decodeUtf8_encodeUtf8 (s : string) : decodeUtf8 (encodeUtf8 s) = s.
Proof. apply string_of_list_byte_of_string. Qed.

Lemma encodeUtf8_decodeUtf8 (b : bytes) : encodeUtf8 (decodeUtf8 b) = b.
Proof. apply list_byte_of_string_of_list_byte. Qed.

Lemma decodeUtf8_eqb (b : bytes) (s : string) :
  String.eqb (decodeUtf8 b) s = true <-> b = encodeUtf8 s.
Proof.
  rewrite String.eqb_eq. split; intros H.
  - rewrite <- H. symmetry. apply encodeUtf8_decodeUtf8.
  - rewrite H. apply decodeUtf8_encodeUtf8.
Qed.

(** ** Reading from a connection *)

Lemma advanced_advanced c r1 e1 r2 e2 :
  advanced (advanced c r1 e1) r2 e2 = advanced c r2 (e1 ++ e2).
Proof. unfold advanced. cbn. now rewrite app_assoc. Qed.

Lemma firstn_prefix {A} (a b : list A) : firstn (length a) (a ++ b) = a.
Proof. induction a as [|x a IH]; cbn; [now destruct b | now rewrite IH]. Qed.

Lemma skipn_prefix {A} (a b : list A) : skipn (length a) (a ++ b) = b.
Proof. induction a as [|x a IH]; cbn; [reflexivity | exact IH]. Qed.

Lemma readExactly_app (n : nat) (chunk rest : bytes) (c : connection) :
  length chunk = n ->
  incoming c = chunk ++ rest ->
  readExactly n c = (Ok chunk, advanced c rest [Read chunk]).
Proof.
  intros Hn Hin. unfold readExactly. rewrite Hin, length_app, Hn.
  replace (Nat.leb n (n + length rest)) with true
    by (symmetry; apply Nat.leb_le; lia).
  subst n. now rewrite firstn_prefix, skipn_prefix.
Qed.

Lemma readExactly_short (n : nat) (c : connection) :
  length (incoming c) < n -> readExactly n c = (Throw UnexpectedEnd, c).
Proof.
  intros H. unfold readExactly.
  replace (Nat.leb n (length (incoming c))) with false; [reflexivity|].
  symmetry. apply Nat.leb_gt. exact H.
Qed.

(** A string frame at the head of the stream is read whole and nothing
    after it is touched. *)
Lemma readString_frame (c : connection) (prefix payload rest : bytes) :
  length prefix = 4 ->
  hexToNumber prefix = Some (N.of_nat (length payload)) ->
  incoming c = prefix ++ payload ++ rest ->
  readString c =
    (Ok (decodeUtf8 payload),
     advanced c rest (Read prefix :: match payload with
                                     | [] => []
                                     | _ => [Read payload]
                                     end)).
Proof.
  intros Hlen Hhex Hin. unfold readString, bind at 1.
  rewrite (readExactly_app 4 prefix (payload ++ rest)) by assumption.
  unfold bind at 1. rewrite Hhex. cbn [liftOption ret].
  destruct payload as [|b payload].
  - cbn. reflexivity.
  - unfold bind at 1.
    replace (N.eqb (N.of_nat (length (b :: payload))) 0) with false
      by (symmetry; apply N.eqb_neq; cbn [length]; lia).
    rewrite Nat2N.id.
    rewrite (readExactly_app _ (b :: payload) rest) by reflexivity.
    cbn [ret]. now rewrite advanced_advanced.
Qed.

Lemma readOkay_head (c : connection) (head rest : bytes) :
  length head = 4 ->
  incoming c = head ++ rest ->
  readOkay c =
    let c' := advanced c rest [Read head] in
    if String.eqb (decodeUtf8 head) "OKAY" then (Ok tt, c')
    else if String.eqb (decodeUtf8 head) "FAIL" then
      match readString c' with
      | (Ok reason, c'') => (Throw (ProtocolFailure reason), c'')
      | (Throw e, c'') => (Throw e, c'')
      end
    else (Throw (UnexpectedResponse (decodeUtf8 head)), c').
Proof.
  intros Hlen Hin. unfold readOkay, bind at 1.
  rewrite (readExactly_app 4 head rest) by assumption.
  cbv zeta.
  destruct (String.eqb (decodeUtf8 head) "OKAY"); [reflexivity|].
  destruct (String.eqb (decodeUtf8 head) "FAIL"); [|reflexivity].
  unfold bind. destruct (readString _) as [[reason|e] c'']; reflexivity.
Qed.

Lemma eqb_decodeUtf8_false (b : bytes) (s : string) :
  b <> encodeUtf8 s -> String.eqb (decodeUtf8 b) s = false.
Proof.
  intros H. destruct (String.eqb (decodeUtf8 b) s) eqn:E; [|reflexivity].
  apply decodeUtf8_eqb in E. contradiction.
Qed.

(** C7. [readOkay] reads exactly four bytes.  It succeeds if and only if
    they are [OKAY]; on [FAIL] it reads the string frame that follows and
    fails with that string as the reason; on any other four bytes it fails
    with an unexpected-response error and reads nothing more. *)
Theorem readOkay_ack_frame (c : connection) (head rest : bytes) :
  length head = 4 ->
  incoming c = head ++ rest ->
  (fst (readOkay c) = Ok tt <-> head = encodeUtf8 "OKAY") /\
  (head = encodeUtf8 "OKAY" ->
     readOkay c = (Ok tt, advanced c rest [Read head])) /\
  (head = encodeUtf8 "FAIL" ->
     forall prefix payload rest',
       length prefix = 4 ->
       hexToNumber prefix = Some (N.of_nat (length payload)) ->
       rest = prefix ++ payload ++ rest' ->
       readOkay c =
         (Throw (ProtocolFailure (decodeUtf8 payload)),
          advanced c rest' (Read head :: Read prefix ::
                            match payload with [] => [] | _ => [Read payload] end))) /\
  (head <> encodeUtf8 "OKAY" -> head <> encodeUtf8 "FAIL" ->
     readOkay c =
       (Throw (UnexpectedResponse (decodeUtf8 head)), advanced c rest [Read head])).
Proof.
  intros Hlen Hin. pose proof (readOkay_head c head rest Hlen Hin) as Hrun.
  cbv zeta in Hrun.
  repeat split.
  - intros Hok. apply decodeUtf8_eqb.
    destruct (String.eqb (decodeUtf8 head) "OKAY"); [reflexivity|].
    rewrite Hrun in Hok.
    destruct (String.eqb (decodeUtf8 head) "FAIL").
    + destruct (readString _) as [[reason|e] c'']; discriminate.
    + discriminate.
  - intros ->. now rewrite Hrun.
  - intros ->. now rewrite Hrun.
  - intros -> prefix payload rest' Hp Hhex ->. rewrite Hrun. cbn [decodeUtf8].
    change (String.eqb (string_of_list_byte (encodeUtf8 "FAIL")) "OKAY") with false.
    change (String.eqb (string_of_list_byte (encodeUtf8 "FAIL")) "FAIL") with true.
    cbv iota.
    rewrite (readString_frame _ prefix payload rest') by (assumption || reflexivity).
    now rewrite advanced_advanced.
  - intros Hno Hnf. rewrite Hrun.
    now rewrite (eqb_decodeUtf8_false _ _ Hno), (eqb_decodeUtf8_false _ _ Hnf).
Qed.

Lemma readOkay_ack_frame_witness :
  readOkay (quietServer (encodeUtf8 "FAIL000edevice offlineOKAY")) =
    (Throw (ProtocolFailure "device offline"),
     advanced (quietServer (encodeUtf8 "FAIL000edevice offlineOKAY"))
              (encodeUtf8 "OKAY")
              [Read (encodeUtf8 "FAIL"); Read (encodeUtf8 "000e");
               Read (encodeUtf8 "device offline")]).
Proof.
  pose proof (readOkay_ack_frame
                (quietServer (encodeUtf8 "FAIL000edevice offlineOKAY"))
                (encodeUtf8 "FAIL") (encodeUtf8 "000edevice offlineOKAY")
                eq_refl eq_refl) as [_ [_ [Hfail _]]].
  exact (Hfail eq_refl (encodeUtf8 "000e") (encodeUtf8 "device offline")
               (encodeUtf8 "OKAY") eq_refl eq_refl eq_refl).
Defined.

(** C6. A string whose UTF-8 encoding has at most [0xFFFF] bytes survives
    [writeString] followed by [readString]: the reader gets the string
    back and stops right after the frame.  A zero length prefix decodes to
    the empty string without a second read. *)
Theorem writeString_readString_roundtrip
        (s : string) (writer reader : connection) (rest : bytes) :
  (N.of_nat (length (encodeUtf8 s)) <= 65535)%N ->
  hd None (write_faults writer) = None ->
  fst (writeString s writer) = Ok tt /\
  log (snd (writeString s writer)) = log writer ++ [Written (writeString_buffer s)] /\
  (incoming reader = writeString_buffer s ++ rest ->
     fst (readString reader) = Ok s /\
     incoming (snd (readString reader)) = rest) /\
  (incoming reader = encodeUtf8 "0000" ++ rest ->
     readString reader = (Ok "", advanced reader rest [Read (encodeUtf8 "0000")])).
Proof.
  intros Hlen Hw.
  assert (Hwrite : writeString s writer =
                   (Ok tt, snd (writeString s writer)) /\
                   log (snd (writeString s writer)) =
                   log writer ++ [Written (writeString_buffer s)]).
  { unfold writeString, write.
    destruct (write_faults writer) as [|[e|] f]; try discriminate; now split. }
  destruct Hwrite as [Hrun Hlog].
  split; [now rewrite Hrun|]. split; [exact Hlog|]. split.
  - intros Hin. unfold writeString_buffer in Hin. cbv zeta in Hin.
    rewrite <- app_assoc in Hin.
    rewrite (readString_frame reader _ _ rest (length_numberToHex _)
               (hexToNumber_numberToHex _ Hlen) Hin).
    cbn [fst snd]. split; [f_equal; apply decodeUtf8_encodeUtf8 | reflexivity].
  - intros Hin.
    exact (readString_frame reader (encodeUtf8 "0000") [] rest eq_refl eq_refl Hin).
Qed.

Lemma writeString_readString_roundtrip_witness :
  fst (readString (quietServer (writeString_buffer "host:version" ++ encodeUtf8 "OKAY")))
    = Ok "host:version" /\
  incoming (snd (readString (quietServer (writeString_buffer "host:version"
                                            ++ encodeUtf8 "OKAY"))))
    = encodeUtf8 "OKAY".
Proof.
  refine (proj1 (proj2 (proj2
    (writeString_readString_roundtrip "host:version" (quietServer [])
       (quietServer (writeString_buffer "host:version" ++ encodeUtf8 "OKAY"))
       (encodeUtf8 "OKAY") _ eq_refl))) eq_refl).
  vm_compute. discriminate.
Defined.

(** ** Code on one connection, run against the world *)

Lemma replaceNth_last {A} (l : list A) (x y : A) :
  replaceNth (length l) y (l ++ [x]) = l ++ [y].
Proof. induction l as [|z l IH]; cbn; [reflexivity | now rewrite IH]. Qed.

Lemma on_last {A} (m : Async connection A) p l c :
  on (length l) m (mkWorld p (l ++ [c])) =
    (fst (m c), mkWorld p (l ++ [snd (m c)])).
Proof.
  unfold on, getConn. cbn [conns pending]. rewrite nth_middle.
  destruct (m c) as [r c']. cbn [fst snd]. now rewrite replaceNth_last.
Qed.

Lemma getConn_last p l c : getConn (length l) (mkWorld p (l ++ [c])) = c.
Proof. unfold getConn. cbn [conns]. apply nth_middle. Qed.

(** [connect], once the connector has answered. *)
Lemma connect_dialled request options c p l :
  connect request options (mkWorld (inr c :: p) l) =
    (match fst (connect_exchange request options c) with
     | Ok _ => Ok (length l)
     | Throw e => Throw e
     end,
     mkWorld p (l ++ [snd (connect_exchange request options c)])).
Proof.
  unfold connect, bind at 1. cbn [connectorConnect pending conns].
  unfold bind. rewrite on_last.
  destruct (connect_exchange request options c) as [[[]|e] c']; reflexivity.
Qed.

Lemma connect_refused request options e p l :
  connect request options (mkWorld (inl e :: p) l) = (Throw e, mkWorld p l).
Proof. reflexivity. Qed.

Lemma connect_exhausted request options l :
  connect request options (mkWorld [] l) = (Throw (External 0), mkWorld [] l).
Proof. reflexivity. Qed.

(** A successful [connect] took the next answer of the connector. *)
Lemma connect_Ok_inv request options w h w' :
  connect request options w = (Ok h, w') ->
  exists c p,
    pending w = inr c :: p /\ h = length (conns w) /\
    fst (connect_exchange request options c) = Ok tt /\
    w' = mkWorld p (conns w ++ [snd (connect_exchange request options c)]).
Proof.
  destruct w as [[|[e|c] p] l]; try discriminate.
  rewrite connect_dialled. intros H. exists c, p.
  destruct (connect_exchange request options c) as [[[]|e] c'];
    cbn in H |- *; inversion H; subst; auto.
Qed.

(** ** Faults are left alone *)

Lemma keepsFaults_same {A} (r : result A) :
  keepsFaults (fun c => (r, c)).
Proof. intros c. cbn. repeat split. exists []. now rewrite app_nil_r. Qed.

Lemma keepsFaults_ret {A} (a : A) : keepsFaults (ret a).
Proof. apply keepsFaults_same. Qed.

Lemma keepsFaults_throw {A} e : keepsFaults (@throw connection A e).
Proof. apply keepsFaults_same. Qed.

Lemma keepsFaults_then (c c' c'' : connection) :
  (cancel_fault c' = cancel_fault c /\ close_fault c' = close_fault c /\
   exists events, log c' = log c ++ events) ->
  (cancel_fault c'' = cancel_fault c' /\ close_fault c'' = close_fault c' /\
   exists events, log c'' = log c' ++ events) ->
  cancel_fault c'' = cancel_fault c /\ close_fault c'' = close_fault c /\
  exists events, log c'' = log c ++ events.
Proof.
  intros [H1 [H2 [ev1 H3]]] [H4 [H5 [ev2 H6]]]. repeat split; try congruence.
  exists (ev1 ++ ev2). now rewrite H6, H3, app_assoc.
Qed.

Lemma keepsFaults_bind {A B} (m : Async connection A) (k : A -> Async connection B) :
  keepsFaults m -> (forall a, keepsFaults (k a)) -> keepsFaults (bind m k).
Proof.
  intros Hm Hk c. unfold bind. specialize (Hm c).
  destruct (m c) as [[a|e] c']; cbn [snd] in *; [|exact Hm].
  exact (keepsFaults_then c c' _ Hm (Hk a c')).
Qed.

Lemma keepsFaults_tryFinally {A} (m : Async connection A) f :
  keepsFaults m -> keepsFaults f -> keepsFaults (tryFinally m f).
Proof.
  intros Hm Hf c. unfold tryFinally. specialize (Hm c).
  destruct (m c) as [r c']. specialize (Hf c').
  destruct (f c') as [[u|e] c'']; cbn [snd] in *;
    exact (keepsFaults_then c c' c'' Hm Hf).
Qed.

Lemma keepsFaults_liftOption {A} e (o : option A) : keepsFaults (liftOption e o).
Proof. destruct o; [apply keepsFaults_ret | apply keepsFaults_throw]. Qed.

Lemma keepsFaults_readExactly n : keepsFaults (readExactly n).
Proof.
  intros c. unfold readExactly.
  destruct (Nat.leb n (length (incoming c))); cbn; repeat split.
  - now eexists.
  - exists []. now rewrite app_nil_r.
Qed.

Lemma keepsFaults_write chunk : keepsFaults (write chunk).
Proof.
  intros c. unfold write. destruct (write_faults c) as [|[e|] f]; cbn; repeat split;
    solve [now eexists | exists []; now rewrite app_nil_r].
Qed.

Create HintDb faults.
#[local] Hint Resolve keepsFaults_ret keepsFaults_throw keepsFaults_bind
  keepsFaults_tryFinally keepsFaults_liftOption keepsFaults_readExactly
  keepsFaults_write : faults.

Lemma keepsFaults_readString : keepsFaults readString.
Proof.
  unfold readString. repeat (apply keepsFaults_bind; [|intros ?]); auto with faults.
  destruct (N.eqb _ 0); auto with faults.
Qed.

#[local] Hint Resolve keepsFaults_readString : faults.

Lemma keepsFaults_readOkay : keepsFaults readOkay.
Proof.
  unfold readOkay. apply keepsFaults_bind; [auto with faults|]. intros b.
  cbv zeta. repeat match goal with |- context [if ?b then _ else _] => destruct b end;
    auto with faults.
Qed.

#[local] Hint Resolve keepsFaults_readOkay : faults.

Lemma keepsFaults_raceSignal_listen signals :
  keepsFaults (@raceSignal_listen connection signals).
Proof.
  induction signals as [|[s|] signals IH]; cbn; auto with faults.
  destruct (aborted s); auto with faults.
Qed.

Lemma keepsFaults_raceSignal_race {T} (callback : Async connection T) signals :
  keepsFaults callback -> keepsFaults (raceSignal_race callback signals).
Proof.
  intros H. induction signals as [|[s|] signals IH]; cbn; auto with faults.
  destruct (fires s); auto with faults.
Qed.

#[local] Hint Resolve keepsFaults_raceSignal_listen keepsFaults_raceSignal_race : faults.

Lemma keepsFaults_raceSignal {T} (callback : Async connection T) signals :
  keepsFaults callback -> keepsFaults (raceSignal callback signals).
Proof. intros H. unfold raceSignal. auto with faults. Qed.

#[local] Hint Resolve keepsFaults_raceSignal : faults.

Lemma keepsFaults_connectDevice_resolve known :
  keepsFaults (connectDevice_resolve known).
Proof.
  unfold connectDevice_resolve. destruct known; auto 10 with faults.
Qed.

#[local] Hint Resolve keepsFaults_connectDevice_resolve : faults.

(** ** The two guarded blocks of [connect] and [connectDevice] *)

Lemma bind_tryCatch {S A B} (m : Async S A) handler (k : Async S B) (s : S) :
  (tryCatch m handler ;; k) s =
    match m s with
    | (Ok _, s1) => k s1
    | (Throw e, s1) =>
        match handler e s1 with
        | (Ok _, s2) => k s2
        | (Throw e', s2) => (Throw e', s2)
        end
    end.
Proof. unfold bind, tryCatch. now destruct (m s) as [[a|e] s1]. Qed.

(** Both functions write a string under a handler that cancels and closes,
    then run a body under a handler that cancels (errors swallowed) and
    closes.  Whenever the whole fails, the reader has been cancelled; the
    cleanup then went through as [cleanedUp] says, save when the write
    failed and the cancel failed too. *)
Lemma guarded_exchange {A} (text : string) (body : Async connection A)
      (c : connection) (e : error) :
  keepsFaults body ->
  let sent := writeString text c in
  let run :=
    (tryCatch (writeString text) (fun e => cancel ;; close ;; throw e) ;;
     tryCatch body (fun e => catchNOOP cancel ;; close ;; throw e)) c in
  fst run = Throw e ->
  (exists events, log (snd run) = log c ++ events /\ In ReadableCancel events) /\
  (forall ew, fst sent = Throw ew -> cancel_fault c = None ->
              cleanedUp (snd sent) (snd run) ew e) /\
  (fst sent = Ok tt ->
   exists eo, fst (body (snd sent)) = Throw eo /\
              cleanedUp (snd (body (snd sent))) (snd run) eo e).
Proof.
  intros Hbody. cbv zeta. rewrite bind_tryCatch.
  destruct (writeString text c) as [[[]|ew] c1] eqn:Hsent; cbn [fst snd].
  - (* the write was accepted *)
    assert (Hlog1 : exists events, log c1 = log c ++ events).
    { pose proof (keepsFaults_write (writeString_buffer text) c) as H.
      unfold writeString in Hsent. rewrite Hsent in H. apply H. }
    unfold tryCatch. destruct (Hbody c1) as [_ [_ [ev2 Hlog2]]].
    destruct (body c1) as [[a|eo] c2] eqn:Hrun; cbn [fst snd] in *;
      [discriminate|].
    unfold bind, catchNOOP, cancel, close, throw. cbn [fst snd logged close_fault].
    destruct Hlog1 as [ev1 Hlog1].
    assert (Hevents : log (logged Close (logged ReadableCancel c2)) =
                      log c ++ (ev1 ++ ev2 ++ [ReadableCancel; Close])).
    { cbn. rewrite Hlog2, Hlog1. now rewrite <- !app_assoc. }
    assert (Hin : In ReadableCancel (ev1 ++ ev2 ++ [ReadableCancel; Close])).
    { apply in_or_app. right. apply in_or_app. right. now left. }
    assert (Hclean : forall raised,
               raised = match close_fault c2 with
                        | None => eo | Some closeError => closeError end ->
               cleanedUp c2 (logged Close (logged ReadableCancel c2)) eo raised).
    { intros raised ->. unfold cleanedUp. cbn. now rewrite <- app_assoc. }
    destruct (close_fault c2) as [closeError|] eqn:Hclose; cbn [fst snd];
      intros He; inversion He; subst e.
    + split; [eexists; split; [exact Hevents | exact Hin]|].
      split; [intros ew Hew; discriminate|].
      intros _. exists eo. split; [reflexivity|]. now apply Hclean.
    + split; [eexists; split; [exact Hevents | exact Hin]|].
      split; [intros ew Hew; discriminate|].
      intros _. exists eo. split; [reflexivity|]. now apply Hclean.
  - (* the write was rejected *)
    assert (Hc1 : log c1 = log c /\ close_fault c1 = close_fault c /\
                  cancel_fault c1 = cancel_fault c).
    { unfold writeString, write in Hsent.
      destruct (write_faults c) as [|[x|] f]; inversion Hsent; subst; now cbn. }
    destruct Hc1 as [Hlog1 [Hclose1 Hcancel1]].
    unfold bind, cancel, close, throw. cbn [fst snd logged cancel_fault close_fault].
    rewrite Hcancel1.
    destruct (cancel_fault c) as [cancelError|]; cbn [fst snd].
    + intros He. split; [|split].
      * exists [ReadableCancel]. cbn. rewrite Hlog1. split; [reflexivity | now left].
      * intros ew' _ Hno. discriminate.
      * intros Hok. discriminate.
    + intros He. split; [|split].
      * exists [ReadableCancel; Close].
        destruct (close_fault c1); cbn; rewrite Hlog1, <- app_assoc;
          (split; [reflexivity | now left]).
      * intros ew' Hew _. inversion Hew; subst ew'. split.
        -- destruct (close_fault c1); cbn; now rewrite <- app_assoc.
        -- destruct (close_fault c1); cbn in He; congruence.
      * intros Hok. discriminate.
Qed.

(** ** Error paths of [connect] and [connectDevice] *)

Lemma connectDevice_bound device service w w0 switch h w1 :
  validateVersion w = (Ok tt, w0) ->
  connectDevice_switch device = Ok switch ->
  connect (fst switch) None w0 = (Ok h, w1) ->
  exists p l c,
    w1 = mkWorld p (l ++ [c]) /\ h = length l /\
    connectDevice device service w =
      (match fst (connectDevice_handshake (snd switch) service c) with
       | Ok id => Ok (mkSocket id service h)
       | Throw e => Throw e
       end,
       mkWorld p (l ++ [snd (connectDevice_handshake (snd switch) service c)])).
Proof.
  intros Hv Hs Hc.
  destruct (connect_Ok_inv _ _ _ _ _ Hc) as [c0 [p [Hp [Hh [_ Hw1]]]]].
  exists p, (conns w0), (snd (connect_exchange (fst switch) None c0)).
  split; [exact Hw1|]. split; [exact Hh|].
  unfold connectDevice, bind at 1. rewrite Hv.
  unfold bind at 1. rewrite Hs. cbn [liftResult ret].
  unfold bind at 1. rewrite Hc.
  unfold bind. rewrite Hw1, Hh, on_last.
  now destruct (connectDevice_handshake _ _ _) as [[id|e] c'].
Qed.

(** C1, as the code has it.  On every error path of [connect] and of
    [connectDevice] after the connection has been obtained the reader is
    cancelled.  When the failure arose after the write (there the error of
    the cancel is swallowed), or when the write failed and the cancel
    succeeded, [close()] is invoked next, and the call raises the original
    error if [close()] succeeds and the error of [close()] if it fails. *)
Theorem error_paths_cancel_then_close
        request options w c p e w'
        device service v v0 switch h v1 e2 v' :
  (pending w = inr c :: p ->
   connect request options w = (Throw e, w') ->
   let c' := getConn (length (conns w)) w' in
   let sent := writeString request c in
   let acked := raceSignal readOkay [optionsSignal options] (snd sent) in
   (exists events, log c' = log c ++ events /\ In ReadableCancel events) /\
   (forall ew, fst sent = Throw ew -> cancel_fault c = None ->
               cleanedUp (snd sent) c' ew e) /\
   (fst sent = Ok tt ->
    exists eo, fst acked = Throw eo /\ cleanedUp (snd acked) c' eo e))
  /\
  (validateVersion v = (Ok tt, v0) ->
   connectDevice_switch device = Ok switch ->
   connect (fst switch) None v0 = (Ok h, v1) ->
   connectDevice device service v = (Throw e2, v') ->
   let c := getConn h v1 in
   let c' := getConn h v' in
   let sent := writeString service c in
   let resolved := connectDevice_resolve (snd switch) (snd sent) in
   (exists events, log c' = log c ++ events /\ In ReadableCancel events) /\
   (forall ew, fst sent = Throw ew -> cancel_fault c = None ->
               cleanedUp (snd sent) c' ew e2) /\
   (fst sent = Ok tt ->
    exists eo, fst resolved = Throw eo /\ cleanedUp (snd resolved) c' eo e2)).
Proof.
  split.
  - intros Hp Hrun. destruct w as [pw l]. cbn [pending conns] in *. subst pw.
    rewrite connect_dialled in Hrun.
    assert (He : fst (connect_exchange request options c) = Throw e).
    { destruct (connect_exchange request options c) as [[[]|x] cx];
        cbn in Hrun |- *; congruence. }
    inversion Hrun; subst w'. rewrite getConn_last.
    apply (guarded_exchange request _ c e); [auto with faults | exact He].
  - intros Hv Hs Hc Hrun.
    destruct (connectDevice_bound device service v v0 switch h v1 Hv Hs Hc)
      as [q [l [d [Hv1 [Hh Hcd]]]]].
    rewrite Hcd in Hrun. subst v1 h.
    assert (He : fst (connectDevice_handshake (snd switch) service d) = Throw e2).
    { destruct (connectDevice_handshake (snd switch) service d) as [[id|x] cx];
        cbn in Hrun |- *; congruence. }
    inversion Hrun; subst v'. rewrite !getConn_last.
    apply (guarded_exchange service _ d e2); [auto with faults | exact He].
Qed.

Lemma error_paths_cancel_then_close_witness :
  (exists eo,
      fst (raceSignal readOkay [None]
             (snd (writeString "host:version" failingCloseServer))) = Throw eo /\
      cleanedUp (snd (raceSignal readOkay [None]
                        (snd (writeString "host:version" failingCloseServer))))
                (getConn 0 (snd (connect "host:version" None failingCloseWorld)))
                eo (External 9))
  /\
  (exists eo,
      fst (connectDevice_resolve None
             (snd (writeString "shell:"
                     (getConn 1 (snd (connect "host:tport:usb" None
                                        (snd (validateVersion offlineDeviceWorld))))))))
        = Throw eo /\
      cleanedUp
        (snd (connectDevice_resolve None
                (snd (writeString "shell:"
                        (getConn 1 (snd (connect "host:tport:usb" None
                                           (snd (validateVersion offlineDeviceWorld)))))))))
        (getConn 1 (snd (connectDevice usbSelector "shell:" offlineDeviceWorld)))
        eo (ProtocolFailure "device offline")).
Proof.
  pose proof (error_paths_cancel_then_close
                "host:version" None failingCloseWorld failingCloseServer []
                (External 9) (snd (connect "host:version" None failingCloseWorld))
                usbSelector "shell:" offlineDeviceWorld
                (snd (validateVersion offlineDeviceWorld))
                ("host:tport:usb", None) 1
                (snd (connect "host:tport:usb" None
                        (snd (validateVersion offlineDeviceWorld))))
                (ProtocolFailure "device offline")
                (snd (connectDevice usbSelector "shell:" offlineDeviceWorld)))
    as [Hconnect Hdevice].
  split.
  - exact (proj2 (proj2 (Hconnect eq_refl eq_refl)) eq_refl).
  - exact (proj2 (proj2 (Hdevice eq_refl eq_refl eq_refl eq_refl)) eq_refl).
Defined.

(** C1 fails as stated: the server refuses the request with the reason
    [device offline] and [close()] fails; [connect] raises the error of
    [close()], not the refusal. *)
Lemma connect_raises_close_error :
  fst (raceSignal readOkay [None]
         (snd (writeString "host:version" failingCloseServer)))
    = Throw (ProtocolFailure "device offline") /\
  fst (connect "host:version" None failingCloseWorld) = Throw (External 9) /\
  fst (connect "host:version" None failingCloseWorld)
    <> Throw (ProtocolFailure "device offline").
Proof. repeat split. discriminate. Qed.

(** ** An already aborted signal *)

Lemma raceSignal_aborted {S T} (callback : Async S T) s signals (st : S) :
  aborted s = true ->
  raceSignal callback (Some s :: signals) st = (Throw (reason s), st).
Proof.
  intros H. unfold raceSignal, tryFinally, bind. cbn [raceSignal_listen].
  now rewrite H.
Qed.

(** C4, as the code has it.  When the signal is already aborted at the call
    and the connector hands out a connection that accepts the write, the
    request frame is written, nothing is read, the reader is cancelled and
    the connection closed, and [connect] fails with the reason of the
    signal, or with the error of [close()] when that fails. *)
Theorem connect_aborted_signal_after_write request options s w c p :
  optionsSignal options = Some s ->
  aborted s = true ->
  pending w = inr c :: p ->
  hd None (write_faults c) = None ->
  let run := connect request options w in
  let c' := getConn (length (conns w)) (snd run) in
  fst run = Throw (match close_fault c with
                   | None => reason s
                   | Some closeError => closeError
                   end) /\
  log c' = log c ++ [Written (writeString_buffer request); ReadableCancel; Close] /\
  incoming c' = incoming c.
Proof.
  intros Hs Hab Hp Hw. destruct w as [pw l]. cbn [pending conns] in *. subst pw.
  cbv zeta. rewrite connect_dialled. cbn [fst snd]. rewrite getConn_last.
  unfold connect_exchange. rewrite bind_tryCatch. rewrite Hs.
  unfold writeString, write. generalize (writeString_buffer request).
  intros buffer.
  destruct (write_faults c) as [|[x|] f]; try discriminate;
    unfold tryCatch; rewrite (raceSignal_aborted _ _ _ _ Hab);
    unfold bind, catchNOOP, cancel, close, throw; cbn;
    destruct (close_fault c); cbn; rewrite <- !app_assoc; auto.
Qed.

Lemma connect_aborted_signal_after_write_witness :
  fst (connect "host:version" abortedOptions abortedWorld) = Throw (External 7) /\
  log (getConn 0 (snd (connect "host:version" abortedOptions abortedWorld))) =
    [Written (writeString_buffer "host:version"); ReadableCancel; Close] /\
  incoming (getConn 0 (snd (connect "host:version" abortedOptions abortedWorld))) =
    incoming versionServer.
Proof.
  exact (connect_aborted_signal_after_write
           "host:version" abortedOptions abortedSignal abortedWorld versionServer []
           eq_refl eq_refl eq_refl eq_refl).
Defined.

(** C4 fails as stated: with an already aborted signal [connect] fails with
    the reason of the signal, but the request frame has been written. *)
Lemma connect_aborted_signal_writes_request :
  aborted abortedSignal = true /\
  fst (connect "host:version" abortedOptions abortedWorld) = Throw (reason abortedSignal) /\
  ~ noBytesWritten (getConn 0 (snd (connect "host:version" abortedOptions abortedWorld))).
Proof.
  repeat split. intros H.
  specialize (H (writeString_buffer "host:version") (or_introl eq_refl)).
  discriminate H.
Qed.

(** ** Selectors *)

(** C3, as the code has it.  A selector object without any recognised key
    makes [formatDeviceService] and the dispatch of [connectDevice] fail
    with [InvalidSelector].  An object with one key or more never fails:
    the first key present, in the order [transportId], [serial], [usb],
    [tcp], decides alone. *)
Theorem selector_dispatch_first_key
        (o : SelectorObject) (command service : string) (w w0 : World) :
  (discriminants o = 0 ->
   formatDeviceService (Some o) command = Throw InvalidSelector /\
   connectDevice_switch (Some o) = Throw InvalidSelector /\
   (validateVersion w = (Ok tt, w0) ->
    connectDevice (Some o) service w = (Throw InvalidSelector, w0)))
  /\
  (1 <= discriminants o ->
   discriminants (firstDiscriminant o) = 1 /\
   formatDeviceService (Some o) command =
     formatDeviceService (Some (firstDiscriminant o)) command /\
   connectDevice_switch (Some o) = connectDevice_switch (Some (firstDiscriminant o)) /\
   (exists text, formatDeviceService (Some o) command = Ok text) /\
   (exists switch, connectDevice_switch (Some o) = Ok switch)).
Proof.
  destruct o as [[id|] [s|] [|] [|]]; cbn; split; intros H;
    try discriminate; try lia;
    repeat split; eauto.
  intros Hv. unfold connectDevice, bind. now rewrite Hv.
Qed.

Lemma selector_dispatch_first_key_witness :
  (formatDeviceService (Some emptySelector) "features" = Throw InvalidSelector /\
   connectDevice_switch (Some emptySelector) = Throw InvalidSelector /\
   connectDevice (Some emptySelector) "shell:" (initialWorld [inr versionServer]) =
     (Throw InvalidSelector, snd (validateVersion (initialWorld [inr versionServer]))))
  /\
  formatDeviceService (Some twoKeySelector) "features" =
    formatDeviceService (Some (mkSelector (Some 1%Z) None false false)) "features".
Proof.
  split.
  - destruct (selector_dispatch_first_key emptySelector "features" "shell:"
                (initialWorld [inr versionServer])
                (snd (validateVersion (initialWorld [inr versionServer]))))
      as [Hzero _].
    destruct (Hzero eq_refl) as [H1 [H2 H3]].
    split; [exact H1|]. split; [exact H2|]. exact (H3 eq_refl).
  - destruct (selector_dispatch_first_key twoKeySelector "features" "shell:"
                (initialWorld []) (initialWorld [])) as [_ Hmany].
    exact (proj1 (proj2 (Hmany (le_S 1 1 (le_n 1))))).
Defined.

(** C3 fails as stated: a selector with both [transportId] and [serial]
    yields a service string in both places. *)
Lemma two_key_selector_is_accepted :
  discriminants twoKeySelector = 2 /\
  formatDeviceService (Some twoKeySelector) "features" =
    Ok "host-transport-id:1:features" /\
  connectDevice_switch (Some twoKeySelector) = Ok ("host:transport-id:1", Some 1%Z) /\
  formatDeviceService (Some twoKeySelector) "features" <> Throw InvalidSelector /\
  connectDevice_switch (Some twoKeySelector) <> Throw InvalidSelector.
Proof. repeat split; discriminate. Qed.

(** ** The transport id of [connectDevice] *)









(** ** Feature lists *)




(** ** [createTransport] *)

Lemma find_absent {A} (f : A -> bool) (l : list A) :
  (forall x, In x l -> f x = false) -> List.find f l = None.
Proof.
  induction l as [|a l IH]; intros H; [reflexivity|]. cbn.
  rewrite (H a (or_introl eq_refl)). apply IH.
  intros x Hx. apply H. now right.
Qed.

(** C9. When no entry of the listing has the transport id that
    [getDeviceFeatures] resolved, [createTransport] returns a transport
    with the empty serial and a banner without product, model and device,
    whose features are those of [getDeviceFeatures]. *)
Theorem createTransport_absent_device
        (selector : AdbServerDeviceSelector) (w w1 w2 : World)
        (id : Z) (features : list string) (devices : list AdbServerDevice) :
  getDeviceFeatures selector w = (Ok (id, features), w1) ->
  getDevices w1 = (Ok devices, w2) ->
  (forall d, In d devices -> transportId d <> id) ->
  createTransport selector w =
    (Ok (mkTransport "" (mkBanner None None None features) id), w2).
Proof.
  intros Hf Hd Habsent. unfold createTransport, bind. rewrite Hf.
  cbn [fst snd]. rewrite Hd.
  rewrite find_absent; [reflexivity|].
  intros d Hin. apply Z.eqb_neq. now apply Habsent.
Qed.

Lemma createTransport_absent_device_witness :
  createTransport usbSelector vanishedDeviceWorld =
    (Ok (mkTransport "" (mkBanner None None None ["cmd"; "shell_v2"; "abb"]) 7),
     snd (getDevices (snd (getDeviceFeatures usbSelector vanishedDeviceWorld)))).
Proof.
  apply (createTransport_absent_device
           usbSelector vanishedDeviceWorld
           (snd (getDeviceFeatures usbSelector vanishedDeviceWorld))
           (snd (getDevices (snd (getDeviceFeatures usbSelector vanishedDeviceWorld))))
           7 ["cmd"; "shell_v2"; "abb"] [emulatorDevice]).
  - reflexivity.
  - reflexivity.
  - intros d [<-|[]]. cbn. discriminate.
Defined.

(** ** Device listings *)














